(** * Synchronized checkpoints (src/src/checkpointsync.cpp)

    A shallow embedding of the sync-checkpoint logic of TrezarCoin:
    the block index ([CBlockIndex] with its [pprev] links, [mapBlockIndex],
    [chainActive]), the process-wide checkpoint variables, and the
    operations [ValidateSyncCheckpoint], [WriteSyncCheckpoint],
    [AcceptPendingSyncCheckpoint], [AutoSelectSyncCheckpoint],
    [CheckSyncCheckpoint], [ResetSyncCheckpoint],
    [CSyncCheckpoint::CheckSignature] and
    [CSyncCheckpoint::ProcessSyncCheckpoint].

    A [uint256] is a [Z]; the all-zero hash is [0].  The global variables
    are threaded explicitly as a [CPState]; everything the file only reads
    (the block index, the active chain, consensus parameters, the key-value
    store's success, the signature primitive) is an [Env].  Logging via
    [error(...)] has no effect besides returning [false]; relaying to peers
    is a network effect outside the state and is not modelled. *)

From Stdlib Require Import ZArith List String Lia.
From stdpp Require Import base gmap.
Import ListNotations.
Open Scope Z_scope.

(** ** Block index *)

(** [CBlockIndex]: [phashBlock] (what [GetBlockHash] returns), [nHeight] and
    the [pprev] pointer, which is [NULL] for the genesis block.  Following a
    pointer is taking the subterm, so every walk over [pprev] is structural. *)
Inductive CBlockIndex : Type :=
  mkBlockIndex { phashBlock : Z; nHeight : Z; pprev : option CBlockIndex }.

Definition GetBlockHash (p : CBlockIndex) : Z := phashBlock p.

(** [CChain]: the vector [vChain] of the active chain, indexed by height. *)
Record CChain := mkChain { vChain : list CBlockIndex }.

(** [CChain::operator[]]: [NULL] out of range. *)
Definition chain_at (c : CChain) (nHeight : Z) : option CBlockIndex :=
  if (nHeight <? 0) || (Z.of_nat (length (vChain c)) <=? nHeight) then None
  else nth_error (vChain c) (Z.to_nat nHeight).

(** [CChain::Contains]: [this[pindex->nHeight] == pindex].  Pointer
    identity is hash identity: [mapBlockIndex] holds one [CBlockIndex] per
    hash. *)
Definition Contains (c : CChain) (p : CBlockIndex) : bool :=
  match chain_at c (nHeight p) with
  | Some q => GetBlockHash q =? GetBlockHash p
  | None => false
  end.

(** [CChain::Tip]: the last element, [NULL] on an empty chain. *)
Definition Tip (c : CChain) : option CBlockIndex :=
  match vChain c with
  | [] => None
  | _ => chain_at c (Z.of_nat (length (vChain c)) - 1)
  end.

(** ** Checkpoint messages *)

(** [CUnsignedSyncCheckpoint]: the signed payload. *)
Record CUnsignedSyncCheckpoint := mkUnsigned {
  u_nVersion : Z;
  u_hashCheckpoint : Z
}.

(** [CSyncCheckpoint]: payload fields, the serialized payload [vchMsg] and
    the signature [vchSig]. *)
Record CSyncCheckpoint := mkSyncCheckpoint {
  nVersion : Z;
  hashCheckpoint : Z;
  vchMsg : list Byte.byte;
  vchSig : list Byte.byte
}.

(** [CSyncCheckpoint::SetNull]. *)
Definition NullCheckpoint : CSyncCheckpoint :=
  mkSyncCheckpoint 1 0 [] [].

(** [CSyncCheckpoint::IsNull]. *)
Definition IsNull (m : CSyncCheckpoint) : bool := hashCheckpoint m =? 0.

(** ** Environment and state *)

(** What the checkpoint code reads but never writes: [mapBlockIndex],
    [chainActive], the consensus parameters ([hashGenesisBlock],
    [checkpointPubKey], the latest hardened checkpoint), the
    [-checkpointdepth] argument (the [int64_t] that [GetArg] returns),
    whether [pblocktree->WriteSyncCheckpoint]
    succeeds for a hash, and the crypto and serialization primitives:
    [Hash], [CPubKey::Verify] (with the key given by its hex string) and
    the stream extraction [sMsg >> CUnsignedSyncCheckpoint], which is
    [None] when it throws. *)
Record Env := mkEnv {
  mapBlockIndex : gmap Z CBlockIndex;
  chainActive : CChain;
  hashGenesisBlock : Z;
  checkpointPubKey : string;
  latestHardenedCheckpoint : Z;
  checkpointdepth : Z;
  dbWriteOk : Z -> bool;
  Hash : list Byte.byte -> Z;
  Verify : string -> Z -> list Byte.byte -> bool;
  Unserialize : list Byte.byte -> option CUnsignedSyncCheckpoint
}.

(** The globals of checkpointsync.cpp, and the [syncCheckpoint] key of the
    block-tree database ([dbSyncCheckpoint]). *)
Record CPState := mkState {
  hashSyncCheckpoint : Z;
  hashPendingCheckpoint : Z;
  checkpointMessage : CSyncCheckpoint;
  checkpointMessagePending : CSyncCheckpoint;
  hashInvalidCheckpoint : Z;
  dbSyncCheckpoint : Z
}.

Definition set_sync (st : CPState) (h : Z) : CPState :=
  mkState h (hashPendingCheckpoint st) (checkpointMessage st)
    (checkpointMessagePending st) (hashInvalidCheckpoint st) (dbSyncCheckpoint st).
Definition set_pending (st : CPState) (h : Z) (m : CSyncCheckpoint) : CPState :=
  mkState (hashSyncCheckpoint st) h (checkpointMessage st)
    m (hashInvalidCheckpoint st) (dbSyncCheckpoint st).
Definition set_message (st : CPState) (m : CSyncCheckpoint) : CPState :=
  mkState (hashSyncCheckpoint st) (hashPendingCheckpoint st) m
    (checkpointMessagePending st) (hashInvalidCheckpoint st) (dbSyncCheckpoint st).
Definition set_invalid (st : CPState) (h : Z) : CPState :=
  mkState (hashSyncCheckpoint st) (hashPendingCheckpoint st) (checkpointMessage st)
    (checkpointMessagePending st) h (dbSyncCheckpoint st).
Definition set_db (st : CPState) (h : Z) : CPState :=
  mkState (hashSyncCheckpoint st) (hashPendingCheckpoint st) (checkpointMessage st)
    (checkpointMessagePending st) (hashInvalidCheckpoint st) h.

(** A 32-bit [int] from an integer: the two's-complement wrap-around.  It is
    what the narrowing cast [(int)] of an [int64_t] gives, and what a
    signed [int] addition gives on overflow (undefined in C++, wrap-around
    on the targets the node is built for). *)
Definition int32_wrap (z : Z) : Z :=
  let m := z mod 2 ^ 32 in
  if 2 ^ 31 <=? m then m - 2 ^ 32 else m.

(** ** Operations *)

Section Operations.

Variable env : Env.

(** The loop
    [while (pindex->nHeight > h) if (!(pindex = pindex->pprev)) return error(..)]:
    [None] when a [pprev] is [NULL], otherwise the block where it stops. *)
Fixpoint trace_back (p : CBlockIndex) (h : Z) : option CBlockIndex :=
  match p with
  | mkBlockIndex _ ht pp =>
      if h <? ht then
        match pp with
        | None => None
        | Some q => trace_back q h
        end
      else Some p
  end.

(** [ValidateSyncCheckpoint(hashCheckpoint)]. *)
Definition ValidateSyncCheckpoint (st : CPState) (hashCheckpoint : Z)
  : bool * CPState :=
  match mapBlockIndex env !! hashSyncCheckpoint st with
  | None => (false, st)
  | Some pindexSyncCheckpoint =>
  match mapBlockIndex env !! hashCheckpoint with
  | None => (false, st)
  | Some pindexCheckpointRecv =>
      if nHeight pindexCheckpointRecv <=? nHeight pindexSyncCheckpoint then
        if negb (Contains (chainActive env) pindexCheckpointRecv)
        then (false, set_invalid st hashCheckpoint)
        else (false, st)
      else
        match trace_back pindexCheckpointRecv (nHeight pindexSyncCheckpoint) with
        | None => (false, st)
        | Some pindex =>
            if negb (GetBlockHash pindex =? hashSyncCheckpoint st)
            then (false, set_invalid st hashCheckpoint)
            else (true, st)
        end
  end
  end.

(** [WriteSyncCheckpoint(hashCheckpoint)]: the database write, then
    [FlushStateToDisk()] (no effect on this state), then the assignment. *)
Definition WriteSyncCheckpoint (st : CPState) (hashCheckpoint : Z)
  : bool * CPState :=
  if negb (dbWriteOk env hashCheckpoint) then (false, st)
  else (true, set_sync (set_db st hashCheckpoint) hashCheckpoint).

(** [AcceptPendingSyncCheckpoint()]; the relay loop is omitted. *)
Definition AcceptPendingSyncCheckpoint (st : CPState) : bool * CPState :=
  let hp := hashPendingCheckpoint st in
  match (if hp =? 0 then None else mapBlockIndex env !! hp) with
  | None => (false, st)
  | Some pindexPending =>
      let '(ok, st1) := ValidateSyncCheckpoint st hp in
      if negb ok then (false, set_pending st1 0 NullCheckpoint)
      else if negb (Contains (chainActive env) pindexPending) then (false, st1)
      else
        let '(w, st2) := WriteSyncCheckpoint st1 hp in
        if negb w then (false, st2)
        else
          let st3 := set_pending st2 0 (checkpointMessagePending st2) in
          let st4 := set_message st3 (checkpointMessagePending st3) in
          (true, set_pending st4 0 NullCheckpoint)
  end.

(** The backward search of [AutoSelectSyncCheckpoint]:
    [while (pindex->pprev && pindex->nHeight + depth > tipHeight)], with
    [depth] already an [int] and the sum computed in [int]. *)
Fixpoint auto_select_walk (p : CBlockIndex) (depth tipHeight : Z) : CBlockIndex :=
  match p with
  | mkBlockIndex _ ht pp =>
      match pp with
      | Some q =>
          if tipHeight <? int32_wrap (ht + depth)
          then auto_select_walk q depth tipHeight
          else p
      | None => p
      end
  end.

(** [AutoSelectSyncCheckpoint()]; the depth is
    [(int)GetArg("-checkpointdepth", -1)]; [None] stands for the undefined
    dereference of [chainActive.Tip()] on an empty chain. *)
Definition AutoSelectSyncCheckpoint : option Z :=
  match Tip (chainActive env) with
  | None => None
  | Some tip =>
      Some (GetBlockHash (auto_select_walk tip (int32_wrap (checkpointdepth env))
                            (nHeight tip)))
  end.

(** [CheckSyncCheckpoint(hashBlock, pindexPrev)].  The result of the
    [WriteSyncCheckpoint] call in the reset branch is discarded, as in the
    source. *)
Definition CheckSyncCheckpoint (st : CPState) (hashBlock : Z)
  (pindexPrev : CBlockIndex) : bool * CPState :=
  let nHeight' := nHeight pindexPrev + 1 in
  match (if hashSyncCheckpoint st =? 0 then None
         else mapBlockIndex env !! hashSyncCheckpoint st) with
  | None => (true, snd (WriteSyncCheckpoint st (hashGenesisBlock env)))
  | Some pindexSync =>
      let passed_descent :=
        if nHeight pindexSync <? nHeight' then
          match trace_back pindexPrev (nHeight pindexSync) with
          | None => false
          | Some pindex => Contains (chainActive env) pindex
          end
        else true in
      if negb passed_descent then (false, st)
      else if (nHeight' =? nHeight pindexSync)
              && negb (hashBlock =? hashSyncCheckpoint st) then (false, st)
      else if (nHeight' <? nHeight pindexSync)
              && negb (bool_decide (is_Some (mapBlockIndex env !! hashBlock)))
      then (false, st)
      else (true, st)
  end.

(** [ResetSyncCheckpoint()]. *)
Definition ResetSyncCheckpoint (st : CPState) : bool * CPState :=
  let checkpointHash := latestHardenedCheckpoint env in
  let st1 :=
    match mapBlockIndex env !! checkpointHash with
    | None => set_pending st checkpointHash NullCheckpoint
    | Some _ => st
    end in
  let target :=
    match mapBlockIndex env !! checkpointHash with
    | Some b => if Contains (chainActive env) b then checkpointHash
                else hashGenesisBlock env
    | None => hashGenesisBlock env
    end in
  WriteSyncCheckpoint st1 target.

(** [CSyncCheckpoint::CheckSignature()]: verification of [vchSig] over
    [Hash(vchMsg)] with the master key, then
    [sMsg >> *(CUnsignedSyncCheckpoint* )this], which overwrites the payload
    fields of the message.  [None]: the extraction threw. *)
Definition CheckSignature (m : CSyncCheckpoint)
  : option (bool * CSyncCheckpoint) :=
  if negb (Verify env (checkpointPubKey env) (Hash env (vchMsg m)) (vchSig m))
  then Some (false, m)
  else
    match Unserialize env (vchMsg m) with
    | None => None
    | Some u =>
        Some (true, mkSyncCheckpoint (u_nVersion u) (u_hashCheckpoint u)
                      (vchMsg m) (vchSig m))
    end.

(** [CSyncCheckpoint::ProcessSyncCheckpoint(pfrom)], with [this] = [m];
    [None]: an exception left the call (before any state was touched). *)
Definition ProcessSyncCheckpoint (st : CPState) (m : CSyncCheckpoint)
  : option (bool * CPState) :=
  match CheckSignature m with
  | None => None
  | Some (false, _) => Some (false, st)
  | Some (true, self) =>
      let h := hashCheckpoint self in
      match mapBlockIndex env !! h with
      | None => Some (false, set_pending st h self)
      | Some _ =>
          let '(ok, st1) := ValidateSyncCheckpoint st h in
          if negb ok then Some (false, st1)
          else
            let '(w, st2) := WriteSyncCheckpoint st1 h in
            if negb w then Some (false, st2)
            else
              let st3 := set_message st2 self in
              Some (true, set_pending st3 0 NullCheckpoint)
      end
  end.

End Operations.

(** ** Well-formedness of the block index *)

(** Each [pprev] is one block lower. *)
Fixpoint heights_ok (p : CBlockIndex) : bool :=
  match p with
  | mkBlockIndex _ ht pp =>
      match pp with
      | None => true
      | Some q => (nHeight q =? ht - 1) && heights_ok q
      end
  end.

(** [q] is reached from [p] by following [pprev] zero or more times. *)
Inductive ancestor (q : CBlockIndex) : CBlockIndex -> Prop :=
  | ancestor_refl : ancestor q q
  | ancestor_prev : forall h ht p,
      ancestor q p -> ancestor q (mkBlockIndex h ht (Some p)).

(** [vChain] as [CChain::SetTip] builds it: the block at position [i] has
    height [i] and its [pprev] is the block at position [i - 1] ([NULL] at
    position 0). *)
Definition chain_ok (c : CChain) : Prop :=
  forall (i : nat) b, nth_error (vChain c) i = Some b ->
    nHeight b = Z.of_nat i /\
    pprev b = match i with O => None | S j => nth_error (vChain c) j end.

(** ** Concrete block trees used by the examples *)

Definition blk_genesis : CBlockIndex := mkBlockIndex 100 0 None.
Definition blk_1 : CBlockIndex := mkBlockIndex 101 1 (Some blk_genesis).
Definition blk_2 : CBlockIndex := mkBlockIndex 102 2 (Some blk_1).
(** A block at height 1 on a fork off the genesis block. *)
Definition blk_1' : CBlockIndex := mkBlockIndex 201 1 (Some blk_genesis).

Definition index_all : gmap Z CBlockIndex :=
  <[100 := blk_genesis]> (<[101 := blk_1]> (<[102 := blk_2]>
    (<[201 := blk_1']> ∅))).

Definition state0 (sync : Z) : CPState :=
  mkState sync 0 NullCheckpoint NullCheckpoint 0 sync.

Definition env_of (m : gmap Z CBlockIndex) (chain : list CBlockIndex)
  (writeOk : bool) : Env :=
  mkEnv m (mkChain chain) 100 "master"%string 100 0 (fun _ => writeOk)
    (fun _ => 0) (fun _ _ sig => match sig with [] => false | _ => true end)
    (fun msg => match msg with
                | [] => None
                | b :: _ => Some (mkUnsigned 1 (Z.of_N (Byte.to_N b) + 100))
                end).


Definition msg_of (payload sig : list Byte.byte) (carried : Z) : CSyncCheckpoint :=
  mkSyncCheckpoint 1 carried payload sig.

(** [env_of] with a different active chain. *)
Definition with_chain (e : Env) (c : CChain) : Env :=
  mkEnv (mapBlockIndex e) c (hashGenesisBlock e) (checkpointPubKey e)
    (latestHardenedCheckpoint e) (checkpointdepth e) (dbWriteOk e) (Hash e)
    (Verify e) (Unserialize e).

(** The active checkpoint moved only through a successful durable write of
    its new value. *)
Definition committed (e : Env) (st st' : CPState) : Prop :=
  hashSyncCheckpoint st' = hashSyncCheckpoint st \/
  (dbWriteOk e (hashSyncCheckpoint st') = true /\
   dbSyncCheckpoint st' = hashSyncCheckpoint st').

(** ** Peer requests and master operations *)

(** [AskForPendingSyncCheckpoint(pfrom)]: the hash of the block requested
    with [pfrom->AskFor(CInv(MSG_BLOCK, hashPendingCheckpoint))], if any;
    [pfrom_present] is [pfrom != NULL]. *)
Definition AskForPendingSyncCheckpoint (e : Env) (st : CPState)
  (pfrom_present : bool) : option Z :=
  if pfrom_present && negb (hashPendingCheckpoint st =? 0)
     && negb (bool_decide (is_Some (mapBlockIndex e !! hashPendingCheckpoint st)))
  then Some (hashPendingCheckpoint st) else None.

(** What the master operations use besides [Env]:
    [CBitcoinSecret::SetString] followed by [GetKey] (a key, or [None] when
    the string does not parse), [CKey::Sign] ([None] when
    it fails), the serialization [sMsg << CUnsignedSyncCheckpoint], and the
    success of [pblocktree->WriteCheckpointPubKey] and [pblocktree->Sync]. *)
Record MasterEnv := mkMasterEnv {
  menv : Env;
  SecretSetString : string -> option Z;
  KeySign : Z -> Z -> option (list Byte.byte);
  SerializeUnsigned : CUnsignedSyncCheckpoint -> list Byte.byte;
  WriteCheckpointPubKeyOk : bool;
  SyncOk : bool
}.

(** [SendSyncCheckpoint(hashCheckpoint)] with the master key
    [strMasterPrivKey].  The third component is the message relayed to every
    node of [vNodes] ([checkpoint] as [ProcessSyncCheckpoint] left it, after
    [CheckSignature] read the payload back into it); [None]: nothing is
    relayed.  The outer [None]: an exception left the call. *)
Definition SendSyncCheckpoint (me : MasterEnv) (st : CPState)
  (strMasterPrivKey : string) (hashCheckpoint : Z)
  : option (bool * CPState * option CSyncCheckpoint) :=
  let e := menv me in
  let msg := SerializeUnsigned me (mkUnsigned 1 hashCheckpoint) in
  match strMasterPrivKey with
  | EmptyString => Some (false, st, None)
  | _ =>
      match SecretSetString me strMasterPrivKey with
      | None => Some (false, st, None)
      | Some key =>
          match KeySign me key (Hash e msg) with
          | None => Some (false, st, None)
          | Some sig =>
              let checkpoint := mkSyncCheckpoint 1 hashCheckpoint msg sig in
              match ProcessSyncCheckpoint e st checkpoint with
              | None => None
              | Some (false, st') => Some (false, st', None)
              | Some (true, st') =>
                  let relayed :=
                    match CheckSignature e checkpoint with
                    | Some (_, self) => self
                    | None => checkpoint
                    end in
                  Some (true, st', Some relayed)
              end
          end
      end
  end.

(** [CheckCheckpointPubKey()], with [dbPubKey] the [checkpointMasterPubKey]
    entry of the block-tree database ([None]: [ReadCheckpointPubKey]
    fails); returns the result, the state and the new database entry. *)
Definition CheckCheckpointPubKey (me : MasterEnv) (st : CPState)
  (dbPubKey : option string) : bool * CPState * option string :=
  let e := menv me in
  let strMasterPubKey := checkpointPubKey e in
  let differs :=
    match dbPubKey with
    | None => true
    | Some strPubKey => negb (String.eqb strPubKey strMasterPubKey)
    end in
  if negb differs then (true, st, dbPubKey)
  else if negb (WriteCheckpointPubKeyOk me) then (false, st, dbPubKey)
  else if negb (SyncOk me) then (false, st, Some strMasterPubKey)
  else
    let '(ok, st') := ResetSyncCheckpoint e st in
    (ok, st', Some strMasterPubKey).

(** ** Sanity checks on concrete inputs *)

Example trace_back_2_to_0 : trace_back blk_2 0 = Some blk_genesis.
Proof. reflexivity. Qed.

Example contains_fork :
  Contains (mkChain [blk_genesis; blk_1; blk_2]) blk_1' = false.
Proof. reflexivity. Qed.

Example validate_child :
  ValidateSyncCheckpoint (env_of index_all [blk_genesis; blk_1] true)
    (state0 101) 102 = (true, state0 101).
Proof. vm_compute. reflexivity. Qed.

(** ** Lemmas on the walks *)

Lemma trace_back_ancestor :
  forall p h a, trace_back p h = Some a -> ancestor a p /\ nHeight a <= h.
Proof.
  fix IH 1. intros [hs ht pp] h a; simpl.
  destruct (Z.ltb_spec h ht) as [Hlt | Hge].
  - destruct pp as [q |]; [| discriminate].
    intros Hq. destruct (IH q h a Hq) as [Ha Hle].
    split; [constructor; exact Ha | exact Hle].
  - intros [= <-]. split; [constructor | simpl; lia].
Qed.

Lemma trace_back_height :
  forall p h a, heights_ok p = true -> h <= nHeight p ->
    trace_back p h = Some a -> nHeight a = h.
Proof.
  fix IH 1. intros [hs ht pp] h a Hok Hle; simpl in *.
  destruct (Z.ltb_spec h ht) as [Hlt | Hge].
  - destruct pp as [q |]; [| discriminate].
    apply andb_prop in Hok as [Hq Hok]. apply Z.eqb_eq in Hq.
    apply (IH q h a Hok). lia.
  - intros [= <-]. simpl. lia.
Qed.

Lemma validate_sync_fields (e : Env) (st : CPState) (h : Z) :
  hashSyncCheckpoint (snd (ValidateSyncCheckpoint e st h)) = hashSyncCheckpoint st /\
  dbSyncCheckpoint (snd (ValidateSyncCheckpoint e st h)) = dbSyncCheckpoint st.
Proof.
  unfold ValidateSyncCheckpoint.
  destruct (mapBlockIndex e !! hashSyncCheckpoint st) as [s |]; [| auto].
  destruct (mapBlockIndex e !! h) as [c |]; [| auto].
  destruct (nHeight c <=? nHeight s).
  - destruct (negb (Contains (chainActive e) c)); auto.
  - destruct (trace_back c (nHeight s)) as [a |]; [| auto].
    destruct (negb (GetBlockHash a =? hashSyncCheckpoint st)); auto.
Qed.

Lemma write_sync_cases (e : Env) (st : CPState) (h : Z) :
  (dbWriteOk e h = false /\ WriteSyncCheckpoint e st h = (false, st)) \/
  (dbWriteOk e h = true /\
   WriteSyncCheckpoint e st h = (true, set_sync (set_db st h) h)).
Proof.
  unfold WriteSyncCheckpoint. destruct (dbWriteOk e h); simpl; auto.
Qed.

(** ** Claims *)

(** C1: when both blocks are indexed and the candidate is higher than the
    active checkpoint, [ValidateSyncCheckpoint] walks the candidate's
    [pprev] links down to the active checkpoint's height; the block reached
    is an ancestor of the candidate, at that height when heights step by
    one.  The call returns [true], changing nothing, exactly when the block
    reached is the active checkpoint; otherwise it sets
    [hashInvalidCheckpoint] to the candidate and returns [false].  A missing
    [pprev] gives [false] with no state change.  The active checkpoint is
    never changed. *)
Theorem validate_higher_candidate (e : Env) (st : CPState) (h : Z)
    (s c : CBlockIndex)
    (Hs : mapBlockIndex e !! hashSyncCheckpoint st = Some s)
    (Hc : mapBlockIndex e !! h = Some c)
    (Hgt : nHeight s < nHeight c) :
  hashSyncCheckpoint (snd (ValidateSyncCheckpoint e st h)) = hashSyncCheckpoint st /\
  match trace_back c (nHeight s) with
  | Some a =>
      ancestor a c /\ nHeight a <= nHeight s /\
      (heights_ok c = true -> nHeight a = nHeight s) /\
      (fst (ValidateSyncCheckpoint e st h) = true <->
       GetBlockHash a = hashSyncCheckpoint st) /\
      ValidateSyncCheckpoint e st h =
        (if GetBlockHash a =? hashSyncCheckpoint st then (true, st)
         else (false, set_invalid st h))
  | None => ValidateSyncCheckpoint e st h = (false, st)
  end.
Proof.
  split; [apply validate_sync_fields |].
  unfold ValidateSyncCheckpoint. rewrite Hs, Hc.
  destruct (Z.leb_spec (nHeight c) (nHeight s)) as [Hle | _]; [lia |].
  destruct (trace_back c (nHeight s)) as [a |] eqn:Ht; [| reflexivity].
  destruct (trace_back_ancestor _ _ _ Ht) as [Hanc Hle].
  split; [exact Hanc |]. split; [exact Hle |]. split.
  { intros Hok. apply (trace_back_height c); [exact Hok | lia | exact Ht]. }
  destruct (Z.eqb_spec (GetBlockHash a) (hashSyncCheckpoint st)) as [Heq | Hne];
    simpl; split; try reflexivity.
  - split; auto.
  - split; [discriminate | intros H; contradiction].
Qed.

Lemma validate_higher_candidate_witness :
  hashSyncCheckpoint
    (snd (ValidateSyncCheckpoint (env_of index_all [blk_genesis] true) (state0 100) 201))
    = hashSyncCheckpoint (state0 100) /\
  match trace_back blk_1' (nHeight blk_genesis) with
  | Some a =>
      ancestor a blk_1' /\ nHeight a <= nHeight blk_genesis /\
      (heights_ok blk_1' = true -> nHeight a = nHeight blk_genesis) /\
      (fst (ValidateSyncCheckpoint (env_of index_all [blk_genesis] true) (state0 100) 201)
         = true <-> GetBlockHash a = hashSyncCheckpoint (state0 100)) /\
      ValidateSyncCheckpoint (env_of index_all [blk_genesis] true) (state0 100) 201 =
        (if GetBlockHash a =? hashSyncCheckpoint (state0 100) then (true, state0 100)
         else (false, set_invalid (state0 100) 201))
  | None =>
      ValidateSyncCheckpoint (env_of index_all [blk_genesis] true) (state0 100) 201
        = (false, state0 100)
  end.
Proof.
  apply (validate_higher_candidate (env_of index_all [blk_genesis] true)
           (state0 100) 201 blk_genesis blk_1');
    vm_compute; reflexivity.
Defined.

(** C2: when both blocks are indexed and the candidate is not higher than
    the active checkpoint, [ValidateSyncCheckpoint] returns [false]; it
    leaves the state unchanged when the candidate is on [chainActive], and
    otherwise only sets [hashInvalidCheckpoint] to the candidate. *)
Theorem validate_older_candidate (e : Env) (st : CPState) (h : Z)
    (s c : CBlockIndex)
    (Hs : mapBlockIndex e !! hashSyncCheckpoint st = Some s)
    (Hc : mapBlockIndex e !! h = Some c)
    (Hle : nHeight c <= nHeight s) :
  ValidateSyncCheckpoint e st h =
    (if Contains (chainActive e) c then (false, st)
     else (false, set_invalid st h)).
Proof.
  unfold ValidateSyncCheckpoint. rewrite Hs, Hc.
  destruct (Z.leb_spec (nHeight c) (nHeight s)) as [_ | Hgt]; [| lia].
  destruct (Contains (chainActive e) c); reflexivity.
Qed.

Lemma validate_older_candidate_witness :
  ValidateSyncCheckpoint (env_of index_all [blk_genesis; blk_1; blk_2] true)
    (state0 102) 201 = (false, set_invalid (state0 102) 201).
Proof.
  exact (validate_older_candidate (env_of index_all [blk_genesis; blk_1; blk_2] true)
           (state0 102) 201 blk_2 blk_1' eq_refl eq_refl
           ltac:(vm_compute; discriminate)).
Defined.

(** C4: a message whose signature does not verify against the master key
    makes [ProcessSyncCheckpoint] return [false] with the whole state
    unchanged. *)
Theorem process_bad_signature (e : Env) (st : CPState) (m : CSyncCheckpoint)
    (Hsig : Verify e (checkpointPubKey e) (Hash e (vchMsg m)) (vchSig m) = false) :
  ProcessSyncCheckpoint e st m = Some (false, st).
Proof.
  unfold ProcessSyncCheckpoint, CheckSignature. rewrite Hsig. reflexivity.
Qed.

Lemma process_bad_signature_witness :
  ProcessSyncCheckpoint (env_of index_all [blk_genesis] true) (state0 100)
    (msg_of [Byte.x01] [] 101) = Some (false, state0 100).
Proof.
  apply process_bad_signature. reflexivity.
Defined.

(** ** Write-then-commit helpers *)

Lemma validate_true_state (e : Env) (st st' : CPState) (h : Z) :
  ValidateSyncCheckpoint e st h = (true, st') -> st' = st.
Proof.
  unfold ValidateSyncCheckpoint.
  destruct (mapBlockIndex e !! hashSyncCheckpoint st) as [s |]; [| discriminate].
  destruct (mapBlockIndex e !! h) as [c |]; [| discriminate].
  destruct (nHeight c <=? nHeight s).
  - destruct (negb (Contains (chainActive e) c)); discriminate.
  - destruct (trace_back c (nHeight s)) as [a |]; [| discriminate].
    destruct (negb (GetBlockHash a =? hashSyncCheckpoint st)); [discriminate |].
    intros [= <-]. reflexivity.
Qed.

Lemma committed_write (e : Env) (st st1 st' : CPState) (h : Z) (r : bool) :
  hashSyncCheckpoint st1 = hashSyncCheckpoint st ->
  WriteSyncCheckpoint e st1 h = (r, st') -> committed e st st'.
Proof.
  intros Hs Hw.
  destruct (write_sync_cases e st1 h) as [[_ Heq] | [Hok Heq]];
    rewrite Heq in Hw; injection Hw as <- <-.
  - left. exact Hs.
  - right. simpl. auto.
Qed.

Lemma committed_set_pending (e : Env) (st st' : CPState) h m :
  committed e st st' -> committed e st (set_pending st' h m).
Proof. unfold committed. simpl. tauto. Qed.

Lemma committed_set_message (e : Env) (st st' : CPState) m :
  committed e st st' -> committed e st (set_message st' m).
Proof. unfold committed. simpl. tauto. Qed.

Create HintDb checkpoint.
#[local] Hint Resolve committed_set_pending committed_set_message : checkpoint.

(** C3 (as amended): [CheckSyncCheckpoint(hashBlock, pindexPrev)] for a new
    block at height [pindexPrev->nHeight + 1].  When the active checkpoint is
    the zero hash or not indexed and the durable write of the genesis hash
    succeeds, the active checkpoint becomes the genesis hash and the result
    is [true].  Otherwise the state is unchanged, and the result is: above
    the checkpoint's height, whether the ancestor of [pindexPrev] reached at
    that height exists and is on [chainActive]; at that height, whether
    [hashBlock] is the checkpoint hash; below it, whether [hashBlock] is
    indexed. *)
Theorem check_sync_checkpoint_cases (e : Env) (st : CPState) (hashBlock : Z)
    (prev : CBlockIndex) :
  ((hashSyncCheckpoint st = 0 \/ mapBlockIndex e !! hashSyncCheckpoint st = None) ->
   dbWriteOk e (hashGenesisBlock e) = true ->
   CheckSyncCheckpoint e st hashBlock prev =
     (true, set_sync (set_db st (hashGenesisBlock e)) (hashGenesisBlock e))) /\
  (forall s, hashSyncCheckpoint st <> 0 ->
   mapBlockIndex e !! hashSyncCheckpoint st = Some s ->
   snd (CheckSyncCheckpoint e st hashBlock prev) = st /\
   (nHeight s < nHeight prev + 1 ->
    fst (CheckSyncCheckpoint e st hashBlock prev) =
      match trace_back prev (nHeight s) with
      | Some a => Contains (chainActive e) a
      | None => false
      end) /\
   (nHeight prev + 1 = nHeight s ->
    fst (CheckSyncCheckpoint e st hashBlock prev) =
      (hashBlock =? hashSyncCheckpoint st)) /\
   (nHeight prev + 1 < nHeight s ->
    fst (CheckSyncCheckpoint e st hashBlock prev) =
      bool_decide (is_Some (mapBlockIndex e !! hashBlock)))).
Proof.
  split.
  - intros Hsent Hok. unfold CheckSyncCheckpoint, WriteSyncCheckpoint.
    destruct (Z.eqb_spec (hashSyncCheckpoint st) 0) as [_ | Hnz].
    + rewrite Hok. reflexivity.
    + destruct Hsent as [Hz | Hnone]; [contradiction |].
      rewrite Hnone, Hok. reflexivity.
  - intros s Hnz Hs. unfold CheckSyncCheckpoint.
    apply Z.eqb_neq in Hnz. rewrite Hnz, Hs. cbv zeta.
    split; [| split; [| split]].
    + repeat match goal with
             | |- context [if ?b then _ else _] => destruct b
             | |- context [match ?o with Some _ => _ | None => _ end] => destruct o
             end; reflexivity.
    + intros Hgt. apply Z.ltb_lt in Hgt. rewrite Hgt.
      apply Z.ltb_lt in Hgt.
      destruct (Z.eqb_spec (nHeight prev + 1) (nHeight s)); [lia |].
      destruct (Z.ltb_spec (nHeight prev + 1) (nHeight s)); [lia |].
      destruct (trace_back prev (nHeight s)) as [a |]; [| reflexivity].
      destruct (Contains (chainActive e) a); reflexivity.
    + intros Heq.
      destruct (Z.ltb_spec (nHeight s) (nHeight prev + 1)); [lia |].
      rewrite Heq, Z.eqb_refl, Z.ltb_irrefl. simpl.
      destruct (hashBlock =? hashSyncCheckpoint st); reflexivity.
    + intros Hlt.
      destruct (Z.ltb_spec (nHeight s) (nHeight prev + 1)); [lia |].
      destruct (Z.eqb_spec (nHeight prev + 1) (nHeight s)); [lia |].
      apply Z.ltb_lt in Hlt. rewrite Hlt. simpl.
      destruct (bool_decide (is_Some (mapBlockIndex e !! hashBlock))); reflexivity.
Qed.

Lemma check_sync_checkpoint_cases_witness :
  CheckSyncCheckpoint (env_of index_all [blk_genesis] true) (state0 0) 101 blk_genesis =
    (true, set_sync (set_db (state0 0) 100) 100).
Proof.
  exact (proj1 (check_sync_checkpoint_cases (env_of index_all [blk_genesis] true)
                  (state0 0) 101 blk_genesis) (or_introl eq_refl) eq_refl).
Defined.

(** C3 fails as stated: when the durable write of the genesis hash fails,
    [CheckSyncCheckpoint] on an uninitialised checkpoint still returns
    [true] but the active checkpoint stays the zero hash. *)
Lemma check_sync_reset_write_fails :
  CheckSyncCheckpoint (env_of index_all [blk_genesis] false) (state0 0) 101 blk_genesis
    = (true, state0 0) /\
  hashSyncCheckpoint (state0 0) <> hashGenesisBlock (env_of index_all [blk_genesis] false).
Proof. vm_compute. split; [reflexivity | discriminate]. Qed.

(** C5: a failed durable write leaves [WriteSyncCheckpoint]'s state alone
    and returns [false]; a successful one records the hash in the database
    and then in [hashSyncCheckpoint].  Every operation that moves the active
    checkpoint ([ProcessSyncCheckpoint], [AcceptPendingSyncCheckpoint],
    [CheckSyncCheckpoint], [ResetSyncCheckpoint]) either leaves it unchanged
    or moves it to a value whose durable write succeeded and which the
    database holds. *)
Theorem write_then_commit (e : Env) (st : CPState) :
  (forall h, dbWriteOk e h = false -> WriteSyncCheckpoint e st h = (false, st)) /\
  (forall h, dbWriteOk e h = true ->
     WriteSyncCheckpoint e st h = (true, set_sync (set_db st h) h)) /\
  (forall m r st', ProcessSyncCheckpoint e st m = Some (r, st') -> committed e st st') /\
  (forall r st', AcceptPendingSyncCheckpoint e st = (r, st') -> committed e st st') /\
  (forall hb prev r st', CheckSyncCheckpoint e st hb prev = (r, st') -> committed e st st') /\
  (forall r st', ResetSyncCheckpoint e st = (r, st') -> committed e st st').
Proof.
  split; [intros h H; unfold WriteSyncCheckpoint; rewrite H; reflexivity |].
  split; [intros h H; unfold WriteSyncCheckpoint; rewrite H; reflexivity |].
  split; [| split; [| split]].
  - intros m r st'. unfold ProcessSyncCheckpoint.
    destruct (CheckSignature e m) as [[[|] self] |]; [| intros [= <- <-]; left; reflexivity
                                                     | discriminate].
    destruct (mapBlockIndex e !! hashCheckpoint self) as [c |];
      [| intros [= <- <-]; left; reflexivity].
    destruct (ValidateSyncCheckpoint e st (hashCheckpoint self)) as [ok st1] eqn:Hv.
    pose proof (proj1 (validate_sync_fields e st (hashCheckpoint self))) as Hs.
    rewrite Hv in Hs. simpl in Hs.
    destruct ok; simpl; [| intros [= <- <-]; left; exact Hs].
    destruct (WriteSyncCheckpoint e st1 (hashCheckpoint self)) as [w st2] eqn:Hw.
    pose proof (committed_write e st st1 st2 _ w Hs Hw) as Hc.
    destruct w; simpl; intros [= <- <-]; auto with checkpoint.
  - intros r st'. unfold AcceptPendingSyncCheckpoint.
    destruct (if hashPendingCheckpoint st =? 0 then None
              else mapBlockIndex e !! hashPendingCheckpoint st) as [b |];
      [| intros [= <- <-]; left; reflexivity].
    destruct (ValidateSyncCheckpoint e st (hashPendingCheckpoint st)) as [ok st1] eqn:Hv.
    pose proof (proj1 (validate_sync_fields e st (hashPendingCheckpoint st))) as Hs.
    rewrite Hv in Hs. simpl in Hs.
    destruct ok; simpl; [| intros [= <- <-]; left; exact Hs].
    destruct (Contains (chainActive e) b); simpl; [| intros [= <- <-]; left; exact Hs].
    destruct (WriteSyncCheckpoint e st1 (hashPendingCheckpoint st)) as [w st2] eqn:Hw.
    pose proof (committed_write e st st1 st2 _ w Hs Hw) as Hc.
    destruct w; simpl; intros [= <- <-]; auto with checkpoint.
  - intros hb prev r st'. unfold CheckSyncCheckpoint.
    destruct (if hashSyncCheckpoint st =? 0 then None
              else mapBlockIndex e !! hashSyncCheckpoint st) as [s |].
    + cbv zeta.
      repeat match goal with
             | |- context [if ?b then _ else _] => destruct b
             | |- context [match ?o with Some _ => _ | None => _ end] => destruct o
             end; intros [= <- <-]; left; reflexivity.
    + destruct (WriteSyncCheckpoint e st (hashGenesisBlock e)) as [w st2] eqn:Hw.
      simpl. intros [= <- <-]. exact (committed_write e st st st2 _ w eq_refl Hw).
  - intros r st'. unfold ResetSyncCheckpoint. cbv zeta.
    apply committed_write.
    destruct (mapBlockIndex e !! latestHardenedCheckpoint e); reflexivity.
Qed.

(** ** Pending checkpoints *)

Lemma process_signed (e : Env) (st : CPState) (m m' : CSyncCheckpoint) :
  CheckSignature e m = Some (true, m') ->
  ProcessSyncCheckpoint e st m =
    match mapBlockIndex e !! hashCheckpoint m' with
    | None => Some (false, set_pending st (hashCheckpoint m') m')
    | Some _ =>
        let '(ok, st1) := ValidateSyncCheckpoint e st (hashCheckpoint m') in
        if negb ok then Some (false, st1)
        else
          let '(w, st2) := WriteSyncCheckpoint e st1 (hashCheckpoint m') in
          if negb w then Some (false, st2)
          else Some (true, set_pending (set_message st2 m') 0 NullCheckpoint)
    end.
Proof. intros H. unfold ProcessSyncCheckpoint. rewrite H. reflexivity. Qed.

Lemma accept_pending_unfold (e : Env) (st : CPState) (b : CBlockIndex) :
  hashPendingCheckpoint st <> 0 ->
  mapBlockIndex e !! hashPendingCheckpoint st = Some b ->
  AcceptPendingSyncCheckpoint e st =
    let hp := hashPendingCheckpoint st in
    let '(ok, st1) := ValidateSyncCheckpoint e st hp in
    if negb ok then (false, set_pending st1 0 NullCheckpoint)
    else if negb (Contains (chainActive e) b) then (false, st1)
    else
      let '(w, st2) := WriteSyncCheckpoint e st1 hp in
      if negb w then (false, st2)
      else
        let st3 := set_pending st2 0 (checkpointMessagePending st2) in
        let st4 := set_message st3 (checkpointMessagePending st3) in
        (true, set_pending st4 0 NullCheckpoint).
Proof.
  intros Hnz Hb. unfold AcceptPendingSyncCheckpoint.
  apply Z.eqb_neq in Hnz. rewrite Hnz, Hb. reflexivity.
Qed.

(** C6 (as amended): a signature-valid message naming an unindexed block
    is stored, as [CheckSignature] left it, in the pending slot and
    [ProcessSyncCheckpoint] returns [false] with the active checkpoint
    unchanged.  Once the pending block is indexed,
    [AcceptPendingSyncCheckpoint] re-runs [ValidateSyncCheckpoint]: on
    failure it clears the pending slot and leaves the active checkpoint
    unchanged; on success, when the block is on [chainActive] and the
    durable write succeeds, the pending hash becomes the active checkpoint,
    the pending message becomes [checkpointMessage] and the pending slot is
    cleared; on success with the block off [chainActive], or with a failed
    write, the state is unchanged (the pending entry stays). *)
Theorem pending_checkpoint_path (e : Env) :
  (forall st m m', CheckSignature e m = Some (true, m') ->
     mapBlockIndex e !! hashCheckpoint m' = None ->
     ProcessSyncCheckpoint e st m =
       Some (false, set_pending st (hashCheckpoint m') m')) /\
  (forall st b, hashPendingCheckpoint st <> 0 ->
     mapBlockIndex e !! hashPendingCheckpoint st = Some b ->
     (fst (ValidateSyncCheckpoint e st (hashPendingCheckpoint st)) = false ->
        AcceptPendingSyncCheckpoint e st =
          (false, set_pending (snd (ValidateSyncCheckpoint e st (hashPendingCheckpoint st)))
                    0 NullCheckpoint) /\
        hashSyncCheckpoint (snd (AcceptPendingSyncCheckpoint e st)) = hashSyncCheckpoint st) /\
     (fst (ValidateSyncCheckpoint e st (hashPendingCheckpoint st)) = true ->
        Contains (chainActive e) b = true ->
        dbWriteOk e (hashPendingCheckpoint st) = true ->
        AcceptPendingSyncCheckpoint e st =
          (true, set_pending
                   (set_message (set_sync (set_db st (hashPendingCheckpoint st))
                                  (hashPendingCheckpoint st))
                      (checkpointMessagePending st)) 0 NullCheckpoint)) /\
     (fst (ValidateSyncCheckpoint e st (hashPendingCheckpoint st)) = true ->
        Contains (chainActive e) b = false \/ dbWriteOk e (hashPendingCheckpoint st) = false ->
        AcceptPendingSyncCheckpoint e st = (false, st))).
Proof.
  split.
  - intros st m m' Hsig Habs. rewrite (process_signed e st m m' Hsig), Habs.
    reflexivity.
  - intros st b Hnz Hb. rewrite (accept_pending_unfold e st b Hnz Hb). cbv zeta.
    destruct (ValidateSyncCheckpoint e st (hashPendingCheckpoint st)) as [ok st1] eqn:Hv.
    pose proof (proj1 (validate_sync_fields e st (hashPendingCheckpoint st))) as Hs.
    rewrite Hv in Hs. simpl in Hs.
    split; [| split].
    + intros Hf. simpl in Hf. subst ok. simpl. split; [reflexivity | exact Hs].
    + intros Ht Hin Hok. simpl in Ht. subst ok.
      apply validate_true_state in Hv. subst st1.
      rewrite Hin. unfold WriteSyncCheckpoint. rewrite Hok. reflexivity.
    + intros Ht Hfail. simpl in Ht. subst ok.
      apply validate_true_state in Hv. subst st1.
      destruct Hfail as [Hout | Hw].
      * rewrite Hout. reflexivity.
      * destruct (Contains (chainActive e) b); [| reflexivity].
        unfold WriteSyncCheckpoint. rewrite Hw. reflexivity.
Qed.

Definition env_genesis_only : Env :=
  env_of (<[100 := blk_genesis]> ∅) [blk_genesis] true.
Definition env_main_chain : Env :=
  env_of index_all [blk_genesis; blk_1; blk_2] true.
(** The message for the fork block [blk_1'] (hash 201). *)
Definition msg_fork : CSyncCheckpoint := msg_of [Byte.x65] [Byte.x01] 201.

Lemma pending_checkpoint_path_witness :
  ProcessSyncCheckpoint env_genesis_only (state0 100) msg_fork =
    Some (false, set_pending (state0 100) 201 msg_fork).
Proof.
  exact (proj1 (pending_checkpoint_path env_genesis_only) (state0 100) msg_fork
           msg_fork eq_refl eq_refl).
Defined.

(** C6 fails as stated: the message for the fork block [blk_1'] is kept
    pending while the block is unknown; once it is indexed its
    re-validation succeeds, yet [AcceptPendingSyncCheckpoint] does not make
    it active because the block is not on [chainActive]. *)
Lemma pending_valid_but_not_promoted :
  ProcessSyncCheckpoint env_genesis_only (state0 100) msg_fork =
    Some (false, set_pending (state0 100) 201 msg_fork) /\
  fst (ValidateSyncCheckpoint env_main_chain (set_pending (state0 100) 201 msg_fork) 201)
    = true /\
  AcceptPendingSyncCheckpoint env_main_chain (set_pending (state0 100) 201 msg_fork) =
    (false, set_pending (state0 100) 201 msg_fork) /\
  hashSyncCheckpoint (set_pending (state0 100) 201 msg_fork) <> 201.
Proof. vm_compute. repeat split; reflexivity || discriminate. Qed.

(** ** Signature and payload *)

(** C7 (as amended): a message is trusted only if its signature over
    [vchMsg] verifies against the master public key: when [CheckSignature]
    succeeds the signature verified, and when it does not verify
    [ProcessSyncCheckpoint] fails and leaves the state unchanged.
    [CheckSignature] checks nothing else about the carried fields; when the
    signature verifies, the hash parsed from [vchMsg] overwrites the
    message's [hashCheckpoint] (and [nVersion]).  So what
    [ProcessSyncCheckpoint] does never depends on the carried
    [hashCheckpoint] or [nVersion]: a message whose carried hash differs
    from its signed payload is processed with the payload's hash. *)
Theorem signed_payload_decides (e : Env) (st : CPState) (m : CSyncCheckpoint) :
  (forall m', CheckSignature e m = Some (true, m') ->
     Verify e (checkpointPubKey e) (Hash e (vchMsg m)) (vchSig m) = true) /\
  (Verify e (checkpointPubKey e) (Hash e (vchMsg m)) (vchSig m) = false ->
     ProcessSyncCheckpoint e st m = Some (false, st)) /\
  (forall v x,
     ProcessSyncCheckpoint e st (mkSyncCheckpoint v x (vchMsg m) (vchSig m)) =
     ProcessSyncCheckpoint e st m) /\
  (forall m', CheckSignature e m = Some (true, m') ->
     exists u, Unserialize e (vchMsg m) = Some u /\
               hashCheckpoint m' = u_hashCheckpoint u /\
               vchMsg m' = vchMsg m /\ vchSig m' = vchSig m).
Proof.
  split; [| split; [| split]].
  - intros m'. unfold CheckSignature.
    destruct (Verify e (checkpointPubKey e) (Hash e (vchMsg m)) (vchSig m));
      simpl; [reflexivity | discriminate].
  - intros Hv. unfold ProcessSyncCheckpoint, CheckSignature. rewrite Hv. reflexivity.
  - intros v x. unfold ProcessSyncCheckpoint, CheckSignature. simpl.
    destruct (Verify e (checkpointPubKey e) (Hash e (vchMsg m)) (vchSig m));
      simpl; [| reflexivity].
    destruct (Unserialize e (vchMsg m)); reflexivity.
  - intros m'. unfold CheckSignature.
    destruct (Verify e (checkpointPubKey e) (Hash e (vchMsg m)) (vchSig m));
      simpl; [| discriminate].
    destruct (Unserialize e (vchMsg m)) as [u |]; [| discriminate].
    intros [= <-]. exists u. simpl. auto.
Qed.

(** C7 fails as stated: a validly signed message carrying hash 555 whose
    payload parses to 201 passes [CheckSignature] and makes 201 the active
    checkpoint. *)
Lemma carried_hash_mismatch_accepted :
  hashCheckpoint (msg_of [Byte.x65] [Byte.x01] 555) = 555 /\
  CheckSignature env_main_chain (msg_of [Byte.x65] [Byte.x01] 555) =
    Some (true, msg_fork) /\
  option_map (fun '(r, st') => (r, hashSyncCheckpoint st'))
    (ProcessSyncCheckpoint env_main_chain (state0 100) (msg_of [Byte.x65] [Byte.x01] 555))
    = Some (true, 201).
Proof. vm_compute. repeat split. Qed.

(** ** Automatic selection *)

Lemma Tip_last (c : CChain) (tip : CBlockIndex) :
  Tip c = Some tip -> nth_error (vChain c) (pred (length (vChain c))) = Some tip.
Proof.
  unfold Tip, chain_at. destruct (vChain c) as [| x l]; [discriminate |].
  replace (Z.of_nat (length (x :: l)) - 1) with (Z.of_nat (length l))
    by (simpl length; lia).
  destruct (Z.ltb_spec (Z.of_nat (length l)) 0); [lia |].
  destruct (Z.leb_spec (Z.of_nat (length (x :: l))) (Z.of_nat (length l)));
    [simpl length in *; lia |].
  simpl. rewrite Nat2Z.id. auto.
Qed.

Lemma int32_wrap_small (z : Z) :
  - 2 ^ 31 <= z < 2 ^ 31 -> int32_wrap z = z.
Proof.
  unfold int32_wrap. change (2 ^ 31) with 2147483648. change (2 ^ 32) with 4294967296.
  intros Hz. destruct (Z.leb_spec 0 z).
  - rewrite Z.mod_small by lia. destruct (Z.leb_spec 2147483648 z); lia.
  - assert (Hm : z mod 4294967296 = z + 4294967296).
    { symmetry. apply Z.mod_unique with (-1); lia. }
    rewrite Hm. destruct (Z.leb_spec 2147483648 (z + 4294967296)); lia.
Qed.

Lemma int32_wrap_range (z : Z) : - 2 ^ 31 <= int32_wrap z < 2 ^ 31.
Proof.
  unfold int32_wrap. change (2 ^ 31) with 2147483648. change (2 ^ 32) with 4294967296.
  pose proof (Z.mod_pos_bound z 4294967296 ltac:(lia)).
  destruct (Z.leb_spec 2147483648 (z mod 4294967296)); lia.
Qed.

Lemma auto_select_walk_chain (c : CChain) (Hc : chain_ok c) (d T : Z) (Hd : 0 < d)
    (HT : T + d < 2 ^ 31) :
  forall (i : nat) b, nth_error (vChain c) i = Some b ->
    Z.of_nat i <= T ->
    (Z.to_nat (T - d) <= i)%nat ->
    nth_error (vChain c) (Z.to_nat (T - d)) = Some (auto_select_walk b d T).
Proof.
  induction i as [| j IH]; intros b Hb Hi Hk.
  - destruct (Hc O b Hb) as [_ Hp].
    replace (Z.to_nat (T - d)) with O by lia.
    destruct b as [h ht pp]. simpl in Hp. subst pp. exact Hb.
  - destruct (Hc (S j) b Hb) as [Hh Hp].
    destruct b as [h ht pp]. simpl in Hh, Hp. subst ht pp.
    destruct (nth_error (vChain c) j) as [q |] eqn:Hq.
    + simpl. rewrite int32_wrap_small by lia.
      destruct (Z.ltb_spec T (Z.of_nat (S j) + d)) as [Hlt | Hge].
      * apply IH; [reflexivity | lia | lia].
      * replace (Z.to_nat (T - d)) with (S j) by lia. rewrite Hb. reflexivity.
    + apply nth_error_None in Hq.
      assert (S j < length (vChain c))%nat.
      { apply nth_error_Some. rewrite Hb. discriminate. }
      lia.
Qed.

(** C8 (as amended): with a non-empty active chain and a configured
    [-checkpointdepth] [d], [AutoSelectSyncCheckpoint] returns the tip's
    hash when [d = 0] (for a tip height that fits an [int]); when
    [0 < d <= INT_MAX - tip.nHeight] and [vChain] is built as
    [CChain::SetTip] builds it, it returns the hash of the block of
    [vChain] at height [tip.nHeight - d], or of the genesis block
    (position 0) when the tip is lower than [d].  The walk is a structural
    recursion over [pprev], so it terminates. *)
Theorem auto_select_depth (e : Env) (tip : CBlockIndex)
    (Htip : Tip (chainActive e) = Some tip) :
  (checkpointdepth e = 0 -> - 2 ^ 31 <= nHeight tip < 2 ^ 31 ->
   AutoSelectSyncCheckpoint e = Some (GetBlockHash tip)) /\
  (chain_ok (chainActive e) -> 0 < checkpointdepth e ->
   nHeight tip + checkpointdepth e < 2 ^ 31 ->
   exists b, AutoSelectSyncCheckpoint e = Some (GetBlockHash b) /\
     ((checkpointdepth e <= nHeight tip /\
       nHeight b = nHeight tip - checkpointdepth e /\
       nth_error (vChain (chainActive e)) (Z.to_nat (nHeight b)) = Some b) \/
      (nHeight tip < checkpointdepth e /\
       nth_error (vChain (chainActive e)) O = Some b))).
Proof.
  unfold AutoSelectSyncCheckpoint. rewrite Htip. split.
  - intros Hd Hrange. rewrite Hd. change (int32_wrap 0) with 0.
    destruct tip as [h ht [q |]]; simpl in *; [| reflexivity].
    rewrite Z.add_0_r, int32_wrap_small by exact Hrange.
    rewrite Z.ltb_irrefl. reflexivity.
  - intros Hc Hd Hbound.
    pose proof (Tip_last _ _ Htip) as Hlast.
    set (n := pred (length (vChain (chainActive e)))) in *.
    destruct (Hc n tip Hlast) as [Hth _].
    rewrite (int32_wrap_small (checkpointdepth e)) by lia.
    pose proof (auto_select_walk_chain (chainActive e) Hc (checkpointdepth e)
                  (nHeight tip) Hd Hbound n tip Hlast ltac:(lia) ltac:(lia)) as Hb.
    exists (auto_select_walk tip (checkpointdepth e) (nHeight tip)).
    split; [reflexivity |].
    destruct (Z.leb_spec (checkpointdepth e) (nHeight tip)) as [Hle | Hgt].
    + left. destruct (Hc _ _ Hb) as [Hbh _].
      split; [exact Hle |]. split; [lia |].
      rewrite Hbh, Nat2Z.id. exact Hb.
    + right. split; [exact Hgt |].
      replace O with (Z.to_nat (nHeight tip - checkpointdepth e)) by lia.
      exact Hb.
Qed.

Definition env_depth (d : Z) : Env :=
  mkEnv index_all (mkChain [blk_genesis; blk_1; blk_2]) 100 "master"%string 100 d
    (fun _ => true) (fun _ => 0) (fun _ _ _ => true) (fun _ => None).

Lemma chain_main_ok : chain_ok (mkChain [blk_genesis; blk_1; blk_2]).
Proof.
  intros [| [| [| i]]] b Hb; simpl in Hb;
    [injection Hb as <-; split; reflexivity ..| destruct i; discriminate].
Qed.

Lemma auto_select_depth_witness :
  AutoSelectSyncCheckpoint (env_depth 0) = Some (GetBlockHash blk_2) /\
  exists b, AutoSelectSyncCheckpoint (env_depth 1) = Some (GetBlockHash b) /\
     ((1 <= nHeight blk_2 /\ nHeight b = nHeight blk_2 - 1 /\
       nth_error [blk_genesis; blk_1; blk_2] (Z.to_nat (nHeight b)) = Some b) \/
      (nHeight blk_2 < 1 /\ nth_error [blk_genesis; blk_1; blk_2] O = Some b)).
Proof.
  split.
  - apply (proj1 (auto_select_depth (env_depth 0) blk_2 eq_refl)).
    + reflexivity.
    + simpl. lia.
  - apply (proj2 (auto_select_depth (env_depth 1) blk_2 eq_refl)).
    + exact chain_main_ok.
    + simpl. lia.
    + simpl. lia.
Defined.

(** C8 fails as stated: with a configured depth of [2^32] and a tip at
    height 2 the chain is shorter than the depth, yet
    [AutoSelectSyncCheckpoint] returns the tip, not the genesis block: the
    [(int)] cast turns the depth into 0. *)
Lemma auto_select_depth_2pow32 :
  0 < checkpointdepth (env_depth (2 ^ 32)) /\
  nHeight blk_2 < checkpointdepth (env_depth (2 ^ 32)) /\
  AutoSelectSyncCheckpoint (env_depth (2 ^ 32)) = Some (GetBlockHash blk_2) /\
  nth_error (vChain (chainActive (env_depth (2 ^ 32)))) O = Some blk_genesis /\
  GetBlockHash blk_genesis <> GetBlockHash blk_2.
Proof. vm_compute. repeat split; reflexivity || discriminate. Qed.

(** ** Re-processing and the two acceptance paths *)

Lemma process_signed_success (e : Env) (st st1 : CPState) (m m' : CSyncCheckpoint) :
  CheckSignature e m = Some (true, m') ->
  ProcessSyncCheckpoint e st m = Some (true, st1) ->
  st1 = set_pending (set_message (set_sync (set_db st (hashCheckpoint m'))
                                   (hashCheckpoint m')) m') 0 NullCheckpoint.
Proof.
  intros Hsig. rewrite (process_signed e st m m' Hsig).
  destruct (mapBlockIndex e !! hashCheckpoint m'); [| discriminate].
  destruct (ValidateSyncCheckpoint e st (hashCheckpoint m')) as [[|] st0] eqn:Hv;
    [| discriminate].
  apply validate_true_state in Hv. subst st0. simpl.
  destruct (write_sync_cases e st (hashCheckpoint m')) as [[_ Hw] | [_ Hw]];
    rewrite Hw; simpl; [discriminate |].
  intros [= <-]. reflexivity.
Qed.

(** Processing an accepted checkpoint again changes nothing when its block
    is on [chainActive]. *)
Lemma reprocess_on_chain (e : Env) (st st1 : CPState) (m m' : CSyncCheckpoint)
    (c : CBlockIndex) :
  CheckSignature e m = Some (true, m') ->
  ProcessSyncCheckpoint e st m = Some (true, st1) ->
  mapBlockIndex e !! hashCheckpoint m' = Some c ->
  Contains (chainActive e) c = true ->
  ProcessSyncCheckpoint e st1 m = Some (false, st1).
Proof.
  intros Hsig Hp Hc Hin.
  pose proof (process_signed_success e st st1 m m' Hsig Hp) as ->.
  rewrite (process_signed _ _ m m' Hsig), Hc.
  unfold ValidateSyncCheckpoint. simpl. rewrite Hc, Z.leb_refl, Hin. reflexivity.
Qed.

(** The block [blk_1] is indexed but [chainActive] holds only the genesis
    block (the block is known but not yet connected). *)
Definition env_unconnected : Env := env_of index_all [blk_genesis] true.
Definition msg_blk_1 : CSyncCheckpoint := msg_of [Byte.x01] [Byte.x01] 101.

(** C9: processing the same signed checkpoint twice is not the same as
    processing it once.  The first [ProcessSyncCheckpoint] makes [blk_1]
    (a child of the active checkpoint, not on [chainActive]) the active
    checkpoint; the second takes the equal-height branch of
    [ValidateSyncCheckpoint] and, the block being off [chainActive], sets
    [hashInvalidCheckpoint] to the active checkpoint itself. *)
Theorem reprocess_marks_active_invalid :
  match ProcessSyncCheckpoint env_unconnected (state0 100) msg_blk_1 with
  | Some (true, st1) =>
      hashSyncCheckpoint st1 = 101 /\ hashInvalidCheckpoint st1 = 0 /\
      ProcessSyncCheckpoint env_unconnected st1 msg_blk_1 =
        Some (false, set_invalid st1 101) /\
      set_invalid st1 101 <> st1
  | _ => False
  end.
Proof. vm_compute. repeat split. discriminate. Qed.

(** C10: when the signed block is indexed, [ValidateSyncCheckpoint]'s
    verdict does not depend on [chainActive], and (with a working database)
    [ProcessSyncCheckpoint] makes the block the active checkpoint exactly
    when that verdict is [true], without asking whether the block is on
    [chainActive].  [AcceptPendingSyncCheckpoint] also asks that the pending
    block be on [chainActive]; when it is not, the call returns [false] and
    leaves the state, pending entry included, as it was. *)
Theorem direct_vs_pending_acceptance (e : Env) :
  (forall st m m' c,
     CheckSignature e m = Some (true, m') ->
     mapBlockIndex e !! hashCheckpoint m' = Some c ->
     dbWriteOk e (hashCheckpoint m') = true ->
     (forall chain', fst (ValidateSyncCheckpoint (with_chain e chain') st (hashCheckpoint m'))
                     = fst (ValidateSyncCheckpoint e st (hashCheckpoint m'))) /\
     (fst (ValidateSyncCheckpoint e st (hashCheckpoint m')) = true ->
        ProcessSyncCheckpoint e st m =
          Some (true, set_pending (set_message (set_sync (set_db st (hashCheckpoint m'))
                                                 (hashCheckpoint m')) m') 0 NullCheckpoint)) /\
     (fst (ValidateSyncCheckpoint e st (hashCheckpoint m')) = false ->
        ProcessSyncCheckpoint e st m =
          Some (false, snd (ValidateSyncCheckpoint e st (hashCheckpoint m'))))) /\
  (forall st b, hashPendingCheckpoint st <> 0 ->
     mapBlockIndex e !! hashPendingCheckpoint st = Some b ->
     fst (ValidateSyncCheckpoint e st (hashPendingCheckpoint st)) = true ->
     Contains (chainActive e) b = false ->
     AcceptPendingSyncCheckpoint e st = (false, st)).
Proof.
  split.
  - intros st m m' c Hsig Hc Hok. split; [| split].
    + intros chain'. unfold ValidateSyncCheckpoint. simpl.
      destruct (mapBlockIndex e !! hashSyncCheckpoint st) as [s |]; [| reflexivity].
      rewrite Hc.
      destruct (nHeight c <=? nHeight s).
      * destruct (negb (Contains chain' c)), (negb (Contains (chainActive e) c));
          reflexivity.
      * reflexivity.
    + intros Hv. rewrite (process_signed e st m m' Hsig), Hc.
      destruct (ValidateSyncCheckpoint e st (hashCheckpoint m')) as [ok st0] eqn:Hv'.
      simpl in Hv. subst ok. apply validate_true_state in Hv'. subst st0.
      unfold WriteSyncCheckpoint. rewrite Hok. reflexivity.
    + intros Hv. rewrite (process_signed e st m m' Hsig), Hc.
      destruct (ValidateSyncCheckpoint e st (hashCheckpoint m')) as [ok st0].
      simpl in Hv. subst ok. reflexivity.
  - intros st b Hnz Hb Hv Hout.
    rewrite (accept_pending_unfold e st b Hnz Hb). cbv zeta.
    destruct (ValidateSyncCheckpoint e st (hashPendingCheckpoint st)) as [ok st0] eqn:Hv'.
    simpl in Hv. subst ok. apply validate_true_state in Hv'. subst st0.
    rewrite Hout. reflexivity.
Qed.

Lemma direct_vs_pending_acceptance_witness :
  ProcessSyncCheckpoint env_main_chain (state0 100) msg_fork =
    Some (true, set_pending (set_message (set_sync (set_db (state0 100) 201) 201)
                              msg_fork) 0 NullCheckpoint) /\
  AcceptPendingSyncCheckpoint env_main_chain (set_pending (state0 100) 201 msg_fork) =
    (false, set_pending (state0 100) 201 msg_fork).
Proof.
  split.
  - exact (proj1 (proj2 (proj1 (direct_vs_pending_acceptance env_main_chain)
                           (state0 100) msg_fork msg_fork blk_1' eq_refl eq_refl eq_refl))
             eq_refl).
  - exact (proj2 (direct_vs_pending_acceptance env_main_chain)
             (set_pending (state0 100) 201 msg_fork) blk_1'
             ltac:(discriminate) eq_refl eq_refl eq_refl).
Defined.

(** ** Further properties of the checkpoint code *)

(** [ValidateSyncCheckpoint] fails without touching the state when the
    active checkpoint or the candidate is not indexed. *)
Theorem validate_missing_block (e : Env) (st : CPState) (h : Z) :
  (mapBlockIndex e !! hashSyncCheckpoint st = None \/ mapBlockIndex e !! h = None) ->
  ValidateSyncCheckpoint e st h = (false, st).
Proof.
  intros Hmiss. unfold ValidateSyncCheckpoint.
  destruct Hmiss as [Hs | Hc]; [rewrite Hs; reflexivity |].
  destruct (mapBlockIndex e !! hashSyncCheckpoint st); [| reflexivity].
  rewrite Hc. reflexivity.
Qed.

Lemma validate_missing_block_witness :
  ValidateSyncCheckpoint env_main_chain (state0 100) 999 = (false, state0 100).
Proof. exact (validate_missing_block env_main_chain (state0 100) 999 (or_intror eq_refl)).
Defined.

(** The only change [ValidateSyncCheckpoint] ever makes is setting
    [hashInvalidCheckpoint] to the candidate, and never when it returns
    [true]. *)
Theorem validate_only_marks_candidate (e : Env) (st : CPState) (h : Z) :
  (snd (ValidateSyncCheckpoint e st h) = st \/
   snd (ValidateSyncCheckpoint e st h) = set_invalid st h) /\
  (fst (ValidateSyncCheckpoint e st h) = true -> snd (ValidateSyncCheckpoint e st h) = st).
Proof.
  split.
  - unfold ValidateSyncCheckpoint.
    destruct (mapBlockIndex e !! hashSyncCheckpoint st) as [s |]; [| auto].
    destruct (mapBlockIndex e !! h) as [c |]; [| auto].
    destruct (nHeight c <=? nHeight s).
    + destruct (negb (Contains (chainActive e) c)); auto.
    + destruct (trace_back c (nHeight s)) as [a |]; [| auto].
      destruct (negb (GetBlockHash a =? hashSyncCheckpoint st)); auto.
  - destruct (ValidateSyncCheckpoint e st h) as [[|] st'] eqn:Hv; simpl; [| discriminate].
    intros _. exact (validate_true_state e st st' h Hv).
Qed.

(** When [ValidateSyncCheckpoint] accepts a candidate, both blocks are
    indexed, the candidate is strictly higher than the active checkpoint,
    and following its [pprev] links reaches a block with the active
    checkpoint's hash. *)
Theorem validate_true_descendant (e : Env) (st : CPState) (h : Z) :
  fst (ValidateSyncCheckpoint e st h) = true ->
  exists s c a,
    mapBlockIndex e !! hashSyncCheckpoint st = Some s /\
    mapBlockIndex e !! h = Some c /\
    nHeight s < nHeight c /\ ancestor a c /\
    GetBlockHash a = hashSyncCheckpoint st.
Proof.
  unfold ValidateSyncCheckpoint.
  destruct (mapBlockIndex e !! hashSyncCheckpoint st) as [s |]; [| discriminate].
  destruct (mapBlockIndex e !! h) as [c |]; [| discriminate].
  destruct (Z.leb_spec (nHeight c) (nHeight s)).
  - destruct (negb (Contains (chainActive e) c)); discriminate.
  - destruct (trace_back c (nHeight s)) as [a |] eqn:Ht; [| discriminate].
    destruct (Z.eqb_spec (GetBlockHash a) (hashSyncCheckpoint st)) as [Heq |];
      [| discriminate].
    intros _. exists s, c, a.
    repeat split; auto. exact (proj1 (trace_back_ancestor _ _ _ Ht)).
Qed.

Lemma validate_true_descendant_witness :
  exists s c a,
    mapBlockIndex env_main_chain !! hashSyncCheckpoint (state0 100) = Some s /\
    mapBlockIndex env_main_chain !! 201 = Some c /\
    nHeight s < nHeight c /\ ancestor a c /\
    GetBlockHash a = hashSyncCheckpoint (state0 100).
Proof.
  exact (validate_true_descendant env_main_chain (state0 100) 201 eq_refl).
Defined.

(** [AcceptPendingSyncCheckpoint] with no pending checkpoint, or with one
    whose block is still not indexed, returns [false] and changes nothing. *)
Theorem accept_pending_nothing_to_do (e : Env) (st : CPState) :
  (hashPendingCheckpoint st = 0 \/
   mapBlockIndex e !! hashPendingCheckpoint st = None) ->
  AcceptPendingSyncCheckpoint e st = (false, st).
Proof.
  intros H. unfold AcceptPendingSyncCheckpoint.
  destruct (Z.eqb_spec (hashPendingCheckpoint st) 0) as [| Hnz]; [reflexivity |].
  destruct H as [H | H]; [contradiction | rewrite H; reflexivity].
Qed.

Lemma accept_pending_nothing_to_do_witness :
  AcceptPendingSyncCheckpoint env_genesis_only (set_pending (state0 100) 201 msg_fork)
    = (false, set_pending (state0 100) 201 msg_fork).
Proof.
  exact (accept_pending_nothing_to_do env_genesis_only
           (set_pending (state0 100) 201 msg_fork) (or_intror eq_refl)).
Defined.

Lemma auto_select_walk_post (d T : Z) :
  forall p, ancestor (auto_select_walk p d T) p /\
    (int32_wrap (nHeight (auto_select_walk p d T) + d) <= T \/
     pprev (auto_select_walk p d T) = None).
Proof.
  fix IH 1. intros [h ht pp]. destruct pp as [q |]; simpl.
  - destruct (Z.ltb_spec T (int32_wrap (ht + d))).
    + destruct (IH q) as [Ha Hpost]. split; [constructor; exact Ha | exact Hpost].
    + split; [constructor | left; simpl; lia].
  - split; [constructor | right; reflexivity].
Qed.

(** On a non-empty active chain, [AutoSelectSyncCheckpoint] returns the hash
    of a block reached from the tip by [pprev] links at which the loop test
    fails: the [int] sum of its height and the depth narrowed to [int] is at
    most the tip's height, or the block has no parent.  When the narrowed
    depth is zero or less (the default [-1] included) and the tip height is
    a non-negative [int], it is the tip itself. *)
Theorem auto_select_postcondition (e : Env) (tip : CBlockIndex) :
  Tip (chainActive e) = Some tip ->
  exists b, AutoSelectSyncCheckpoint e = Some (GetBlockHash b) /\
    ancestor b tip /\
    (int32_wrap (nHeight b + int32_wrap (checkpointdepth e)) <= nHeight tip \/
     pprev b = None) /\
    (0 <= nHeight tip < 2 ^ 31 -> int32_wrap (checkpointdepth e) <= 0 -> b = tip).
Proof.
  intros Htip. unfold AutoSelectSyncCheckpoint. rewrite Htip.
  exists (auto_select_walk tip (int32_wrap (checkpointdepth e)) (nHeight tip)).
  destruct (auto_select_walk_post (int32_wrap (checkpointdepth e)) (nHeight tip) tip)
    as [Ha Hp].
  split; [reflexivity |]. split; [exact Ha |]. split; [exact Hp |].
  intros Hh Hd. pose proof (int32_wrap_range (checkpointdepth e)) as Hr.
  destruct tip as [h ht [q |]]; simpl in *; [| reflexivity].
  rewrite int32_wrap_small by lia.
  destruct (Z.ltb_spec ht (ht + int32_wrap (checkpointdepth e))); [lia | reflexivity].
Qed.

Lemma auto_select_postcondition_witness :
  exists b, AutoSelectSyncCheckpoint (env_depth (-1)) = Some (GetBlockHash b) /\
    ancestor b blk_2 /\
    (int32_wrap (nHeight b + int32_wrap (checkpointdepth (env_depth (-1))))
       <= nHeight blk_2 \/ pprev b = None) /\
    (0 <= nHeight blk_2 < 2 ^ 31 ->
     int32_wrap (checkpointdepth (env_depth (-1))) <= 0 -> b = blk_2).
Proof. exact (auto_select_postcondition (env_depth (-1)) blk_2 eq_refl). Defined.

Lemma trace_back_on_chain (c : CChain) (Hc : chain_ok c) :
  forall (i : nat) b h, nth_error (vChain c) i = Some b -> 0 <= h <= Z.of_nat i ->
    trace_back b h = nth_error (vChain c) (Z.to_nat h).
Proof.
  induction i as [| j IH]; intros b h Hb Hh.
  - destruct (Hc O b Hb) as [Hht Hp].
    destruct b as [hs ht pp]. simpl in Hht, Hp. subst ht pp.
    replace (Z.to_nat h) with O by lia. rewrite Hb. cbn [trace_back].
    destruct (Z.ltb_spec h (Z.of_nat 0)); [lia | reflexivity].
  - destruct (Hc (S j) b Hb) as [Hht Hp].
    destruct b as [hs ht pp]. simpl in Hht, Hp. subst ht pp. cbn [trace_back].
    destruct (Z.ltb_spec h (Z.of_nat (S j))).
    + destruct (nth_error (vChain c) j) as [q |] eqn:Hq.
      * apply IH; [reflexivity | lia].
      * apply nth_error_None in Hq.
        assert (S j < length (vChain c))%nat by (apply nth_error_Some; rewrite Hb; discriminate).
        lia.
    + replace (Z.to_nat h) with (S j) by lia. exact (eq_sym Hb).
Qed.

Lemma Contains_nth (c : CChain) (Hc : chain_ok c) (i : nat) (b : CBlockIndex) :
  nth_error (vChain c) i = Some b -> Contains c b = true.
Proof.
  intros Hb. destruct (Hc i b Hb) as [Hh _].
  assert (i < length (vChain c))%nat by (apply nth_error_Some; rewrite Hb; discriminate).
  unfold Contains, chain_at. rewrite Hh.
  destruct (Z.ltb_spec (Z.of_nat i) 0); [lia |].
  destruct (Z.leb_spec (Z.of_nat (length (vChain c))) (Z.of_nat i)); [lia |].
  simpl. rewrite Nat2Z.id, Hb. apply Z.eqb_refl.
Qed.

(** With [vChain] laid out by height and an indexed, non-zero active
    checkpoint at height [0 <= H], every block whose parent is on the active
    chain at height [H] or above passes [CheckSyncCheckpoint], which changes
    nothing. *)
Theorem check_sync_extends_active_chain (e : Env) (st : CPState) (hashBlock : Z)
    (prev s : CBlockIndex) (i : nat) :
  chain_ok (chainActive e) ->
  nth_error (vChain (chainActive e)) i = Some prev ->
  hashSyncCheckpoint st <> 0 ->
  mapBlockIndex e !! hashSyncCheckpoint st = Some s ->
  0 <= nHeight s <= Z.of_nat i ->
  CheckSyncCheckpoint e st hashBlock prev = (true, st).
Proof.
  intros Hc Hprev Hnz Hs Hh.
  destruct (Hc i prev Hprev) as [Hph _].
  assert (Hlen : (i < length (vChain (chainActive e)))%nat)
    by (apply nth_error_Some; rewrite Hprev; discriminate).
  destruct (nth_error (vChain (chainActive e)) (Z.to_nat (nHeight s))) as [a |] eqn:Ha;
    [| apply nth_error_None in Ha; lia].
  unfold CheckSyncCheckpoint. apply Z.eqb_neq in Hnz. rewrite Hnz, Hs. cbv zeta.
  rewrite Hph.
  destruct (Z.ltb_spec (nHeight s) (Z.of_nat i + 1)); [| lia].
  rewrite (trace_back_on_chain _ Hc i prev (nHeight s) Hprev Hh), Ha.
  rewrite (Contains_nth _ Hc _ a Ha). simpl.
  destruct (Z.eqb_spec (Z.of_nat i + 1) (nHeight s)); [lia |].
  destruct (Z.ltb_spec (Z.of_nat i + 1) (nHeight s)); [lia |].
  reflexivity.
Qed.

Lemma check_sync_extends_active_chain_witness :
  CheckSyncCheckpoint env_main_chain (state0 101) 555 blk_2 = (true, state0 101).
Proof.
  exact (check_sync_extends_active_chain env_main_chain (state0 101) 555 blk_2 blk_1 2
           chain_main_ok eq_refl ltac:(discriminate) eq_refl ltac:(simpl; lia)).
Defined.

(** [ResetSyncCheckpoint] with a working database: the latest hardened
    checkpoint becomes active when its block is on [chainActive]; otherwise
    the genesis block becomes active, and when the hardened block is not
    indexed at all it is also queued as the pending checkpoint (with a null
    message).  When the write fails the result is [false]. *)
Theorem reset_sync_checkpoint_cases (e : Env) (st : CPState) :
  let cp := latestHardenedCheckpoint e in
  let gen := hashGenesisBlock e in
  (forall b, mapBlockIndex e !! cp = Some b -> Contains (chainActive e) b = true ->
     dbWriteOk e cp = true ->
     ResetSyncCheckpoint e st = (true, set_sync (set_db st cp) cp)) /\
  (forall b, mapBlockIndex e !! cp = Some b -> Contains (chainActive e) b = false ->
     dbWriteOk e gen = true ->
     ResetSyncCheckpoint e st = (true, set_sync (set_db st gen) gen)) /\
  (mapBlockIndex e !! cp = None -> dbWriteOk e gen = true ->
     ResetSyncCheckpoint e st =
       (true, set_sync (set_db (set_pending st cp NullCheckpoint) gen) gen)) /\
  (dbWriteOk e cp = false -> dbWriteOk e gen = false ->
     fst (ResetSyncCheckpoint e st) = false).
Proof.
  cbv zeta. unfold ResetSyncCheckpoint, WriteSyncCheckpoint. cbv zeta.
  split; [| split; [| split]].
  - intros b Hb Hin Hok. rewrite Hb, Hin, Hok. reflexivity.
  - intros b Hb Hout Hok. rewrite Hb, Hout, Hok. reflexivity.
  - intros Hb Hok. rewrite Hb, Hok. reflexivity.
  - intros Hcp Hgen.
    destruct (mapBlockIndex e !! latestHardenedCheckpoint e) as [b |];
      [destruct (Contains (chainActive e) b) |]; rewrite ?Hcp, ?Hgen; reflexivity.
Qed.

(** After [ResetSyncCheckpoint] with a hardened checkpoint whose block is not
    indexed, [AskForPendingSyncCheckpoint] requests that block from any
    peer, whether or not the database write succeeded. *)
Theorem reset_then_ask_for_hardened (e : Env) (st : CPState) :
  latestHardenedCheckpoint e <> 0 ->
  mapBlockIndex e !! latestHardenedCheckpoint e = None ->
  AskForPendingSyncCheckpoint e (snd (ResetSyncCheckpoint e st)) true =
    Some (latestHardenedCheckpoint e).
Proof.
  intros Hnz Hnone. unfold ResetSyncCheckpoint. cbv zeta. rewrite Hnone.
  destruct (write_sync_cases e (set_pending st (latestHardenedCheckpoint e) NullCheckpoint)
              (hashGenesisBlock e)) as [[_ Hw] | [_ Hw]];
    rewrite Hw; unfold AskForPendingSyncCheckpoint; simpl;
    apply Z.eqb_neq in Hnz; rewrite Hnz, Hnone; reflexivity.
Qed.

Definition env_hardened_unknown : Env :=
  mkEnv (<[100 := blk_genesis]> ∅) (mkChain [blk_genesis]) 100 "master"%string 102 0
    (fun _ => true) (fun _ => 0) (fun _ _ _ => true) (fun _ => None).

Lemma reset_then_ask_for_hardened_witness :
  AskForPendingSyncCheckpoint env_hardened_unknown
    (snd (ResetSyncCheckpoint env_hardened_unknown (state0 100))) true = Some 102.
Proof.
  exact (reset_then_ask_for_hardened env_hardened_unknown (state0 100)
           ltac:(discriminate) eq_refl).
Defined.

(** A signature-valid message for a non-zero hash whose block is not indexed
    is kept pending by [ProcessSyncCheckpoint], and
    [AskForPendingSyncCheckpoint] then requests that block from a peer. *)
Theorem process_then_ask_for_block (e : Env) (st : CPState) (m m' : CSyncCheckpoint) :
  CheckSignature e m = Some (true, m') ->
  hashCheckpoint m' <> 0 ->
  mapBlockIndex e !! hashCheckpoint m' = None ->
  exists st', ProcessSyncCheckpoint e st m = Some (false, st') /\
    AskForPendingSyncCheckpoint e st' true = Some (hashCheckpoint m').
Proof.
  intros Hsig Hnz Hnone.
  exists (set_pending st (hashCheckpoint m') m').
  rewrite (process_signed e st m m' Hsig), Hnone. split; [reflexivity |].
  unfold AskForPendingSyncCheckpoint. simpl.
  apply Z.eqb_neq in Hnz. rewrite Hnz, Hnone. reflexivity.
Qed.

Lemma process_then_ask_for_block_witness :
  exists st', ProcessSyncCheckpoint env_genesis_only (state0 100) msg_fork = Some (false, st') /\
    AskForPendingSyncCheckpoint env_genesis_only st' true = Some (hashCheckpoint msg_fork).
Proof.
  exact (process_then_ask_for_block env_genesis_only (state0 100) msg_fork msg_fork
           eq_refl ltac:(discriminate) eq_refl).
Defined.

Lemma validate_state_shape (e : Env) (st : CPState) (h : Z) :
  snd (ValidateSyncCheckpoint e st h) = st \/
  snd (ValidateSyncCheckpoint e st h) = set_invalid st h.
Proof.
  unfold ValidateSyncCheckpoint.
  destruct (mapBlockIndex e !! hashSyncCheckpoint st) as [s |]; [| auto].
  destruct (mapBlockIndex e !! h) as [c |]; [| auto].
  destruct (nHeight c <=? nHeight s).
  - destruct (negb (Contains (chainActive e) c)); auto.
  - destruct (trace_back c (nHeight s)) as [a |]; [| auto].
    destruct (negb (GetBlockHash a =? hashSyncCheckpoint st)); auto.
Qed.

(** [ProcessSyncCheckpoint] leaves [hashInvalidCheckpoint] alone or sets it
    to the hash of the message's signed payload, never to anything else. *)
Theorem process_invalid_marker (e : Env) (st st' : CPState) (m : CSyncCheckpoint) (r : bool) :
  ProcessSyncCheckpoint e st m = Some (r, st') ->
  hashInvalidCheckpoint st' = hashInvalidCheckpoint st \/
  exists m', CheckSignature e m = Some (true, m') /\
             hashInvalidCheckpoint st' = hashCheckpoint m'.
Proof.
  destruct (CheckSignature e m) as [[[|] m'] |] eqn:Hsig.
  - rewrite (process_signed e st m m' Hsig).
    destruct (mapBlockIndex e !! hashCheckpoint m') as [c |];
      [| intros [= _ <-]; left; reflexivity].
    destruct (validate_state_shape e st (hashCheckpoint m')) as [Hv | Hv];
      destruct (ValidateSyncCheckpoint e st (hashCheckpoint m')) as [ok st1];
      simpl in Hv; subst st1;
      [ assert (Hinv : hashInvalidCheckpoint st = hashInvalidCheckpoint st) by reflexivity
      | assert (Hinv : hashInvalidCheckpoint (set_invalid st (hashCheckpoint m'))
                         = hashCheckpoint m') by reflexivity ];
      destruct ok; simpl;
      try (intros [= _ <-]; first [left; reflexivity | right; exists m'; auto]);
      match goal with
      | |- context [WriteSyncCheckpoint e ?s1 ?h] =>
          destruct (write_sync_cases e s1 h) as [[_ Hw] | [_ Hw]]; rewrite Hw; simpl;
          intros [= _ <-]; simpl; first [left; reflexivity | right; exists m'; auto]
      end.
  - unfold ProcessSyncCheckpoint. rewrite Hsig. intros [= _ <-]. left. reflexivity.
  - unfold ProcessSyncCheckpoint. rewrite Hsig. discriminate.
Qed.

Lemma process_invalid_marker_witness :
  hashInvalidCheckpoint (set_invalid (state0 102) 201) = hashInvalidCheckpoint (state0 102) \/
  exists m', CheckSignature env_main_chain msg_fork = Some (true, m') /\
             hashInvalidCheckpoint (set_invalid (state0 102) 201) = hashCheckpoint m'.
Proof.
  exact (process_invalid_marker env_main_chain (state0 102) (set_invalid (state0 102) 201)
           msg_fork false eq_refl).
Defined.

(** [CheckCheckpointPubKey]: when the stored master key equals the
    compiled-in one nothing changes; when it differs (or is missing) and
    both database operations succeed, the compiled-in key is stored and the
    result is that of [ResetSyncCheckpoint], after which a second call
    changes nothing; when storing the key fails, nothing changes and the
    result is [false]. *)
Theorem check_pubkey_rotation (me : MasterEnv) (st : CPState) (dbPubKey : option string) :
  let master := checkpointPubKey (menv me) in
  (dbPubKey = Some master -> CheckCheckpointPubKey me st dbPubKey = (true, st, dbPubKey)) /\
  (dbPubKey <> Some master -> WriteCheckpointPubKeyOk me = true -> SyncOk me = true ->
     CheckCheckpointPubKey me st dbPubKey =
       (fst (ResetSyncCheckpoint (menv me) st), snd (ResetSyncCheckpoint (menv me) st),
        Some master) /\
     CheckCheckpointPubKey me (snd (ResetSyncCheckpoint (menv me) st)) (Some master) =
       (true, snd (ResetSyncCheckpoint (menv me) st), Some master)) /\
  (dbPubKey <> Some master -> WriteCheckpointPubKeyOk me = false ->
     CheckCheckpointPubKey me st dbPubKey = (false, st, dbPubKey)).
Proof.
  cbv zeta.
  assert (Hdiff : forall k, (match k with
                             | None => true
                             | Some s => negb (String.eqb s (checkpointPubKey (menv me)))
                             end) = negb (bool_decide (k = Some (checkpointPubKey (menv me))))).
  { intros [s |]; [| reflexivity].
    destruct (String.eqb_spec s (checkpointPubKey (menv me))) as [-> | Hne].
    - rewrite bool_decide_eq_true_2; reflexivity.
    - rewrite bool_decide_eq_false_2; [reflexivity | congruence]. }
  unfold CheckCheckpointPubKey. cbv zeta. rewrite !Hdiff.
  split; [| split].
  - intros ->. rewrite bool_decide_eq_true_2 by reflexivity. reflexivity.
  - intros Hne Hw Hs. rewrite bool_decide_eq_false_2 by exact Hne.
    simpl. rewrite Hw, Hs. simpl.
    destruct (ResetSyncCheckpoint (menv me) st) as [ok st']. split; [reflexivity |].
    rewrite String.eqb_refl. reflexivity.
  - intros Hne Hw. rewrite bool_decide_eq_false_2 by exact Hne. rewrite Hw. reflexivity.
Qed.

Definition master_env (writeOk : bool) : MasterEnv :=
  mkMasterEnv env_main_chain
    (fun s => match s with EmptyString => None | _ => Some 7 end)
    (fun _ _ => Some [Byte.x01])
    (fun u => match Byte.of_N (Z.to_N (u_hashCheckpoint u - 100)) with
              | Some b => [b]
              | None => []
              end)
    writeOk true.

Lemma check_pubkey_rotation_witness :
  CheckCheckpointPubKey (master_env true) (state0 101) (Some "old"%string) =
    (fst (ResetSyncCheckpoint env_main_chain (state0 101)),
     snd (ResetSyncCheckpoint env_main_chain (state0 101)), Some "master"%string) /\
  CheckCheckpointPubKey (master_env true) (snd (ResetSyncCheckpoint env_main_chain (state0 101)))
    (Some "master"%string) =
    (true, snd (ResetSyncCheckpoint env_main_chain (state0 101)), Some "master"%string).
Proof.
  exact (proj1 (proj2 (check_pubkey_rotation (master_env true) (state0 101)
                         (Some "old"%string))) ltac:(discriminate) eq_refl eq_refl).
Defined.

(** [SendSyncCheckpoint] without a usable master key (empty, not parsable)
    or whose signing fails returns [false], changes nothing and relays
    nothing. *)
Theorem send_without_signature (me : MasterEnv) (st : CPState) (priv : string) (h : Z) :
  (priv = EmptyString \/ SecretSetString me priv = None \/
   exists key, SecretSetString me priv = Some key /\
     KeySign me key (Hash (menv me) (SerializeUnsigned me (mkUnsigned 1 h))) = None) ->
  SendSyncCheckpoint me st priv h = Some (false, st, None).
Proof.
  intros H. unfold SendSyncCheckpoint. cbv zeta.
  destruct priv as [| c rest]; [reflexivity |].
  destruct H as [H | [H | [key [Hk Hs]]]]; [discriminate | rewrite H; reflexivity |].
  rewrite Hk, Hs. reflexivity.
Qed.

Lemma send_without_signature_witness :
  SendSyncCheckpoint (master_env true) (state0 100) EmptyString 201 =
    Some (false, state0 100, None).
Proof. exact (send_without_signature (master_env true) (state0 100) EmptyString 201
                (or_introl eq_refl)). Defined.

(** [SendSyncCheckpoint] goes through the same pipeline as a received
    message: when the payload serialization round-trips, the key parses and
    signs, the master public key verifies that signature, the block is
    indexed and passes [ValidateSyncCheckpoint], and the database write
    succeeds, the hash becomes the active checkpoint, the signed message is
    stored as [checkpointMessage], the pending slot is cleared and that
    message is relayed. *)
Theorem send_accepts_own_checkpoint (me : MasterEnv) (st : CPState) (priv : string)
    (h key : Z) (sig : list Byte.byte) (c : CBlockIndex) :
  let e := menv me in
  let msg := SerializeUnsigned me (mkUnsigned 1 h) in
  let checkpoint := mkSyncCheckpoint 1 h msg sig in
  priv <> EmptyString ->
  SecretSetString me priv = Some key ->
  KeySign me key (Hash e msg) = Some sig ->
  Verify e (checkpointPubKey e) (Hash e msg) sig = true ->
  Unserialize e msg = Some (mkUnsigned 1 h) ->
  mapBlockIndex e !! h = Some c ->
  fst (ValidateSyncCheckpoint e st h) = true ->
  dbWriteOk e h = true ->
  SendSyncCheckpoint me st priv h =
    Some (true, set_pending (set_message (set_sync (set_db st h) h) checkpoint) 0 NullCheckpoint,
          Some checkpoint).
Proof.
  cbv zeta. intros Hpriv Hkey Hsign Hver Hser Hc Hv Hok.
  assert (Hcs : CheckSignature (menv me) (mkSyncCheckpoint 1 h
                  (SerializeUnsigned me (mkUnsigned 1 h)) sig) =
                Some (true, mkSyncCheckpoint 1 h (SerializeUnsigned me (mkUnsigned 1 h)) sig)).
  { unfold CheckSignature. simpl. rewrite Hver, Hser. reflexivity. }
  unfold SendSyncCheckpoint. cbv zeta.
  destruct priv as [| ch rest]; [contradiction |].
  rewrite Hkey, Hsign, (process_signed _ _ _ _ Hcs), Hcs. simpl. rewrite Hc.
  destruct (ValidateSyncCheckpoint (menv me) st h) as [ok st1] eqn:Hv'.
  simpl in Hv. subst ok. apply validate_true_state in Hv'. subst st1.
  unfold WriteSyncCheckpoint. rewrite Hok. reflexivity.
Qed.

Lemma send_accepts_own_checkpoint_witness :
  SendSyncCheckpoint (master_env true) (state0 100) "key"%string 201 =
    Some (true, set_pending (set_message (set_sync (set_db (state0 100) 201) 201)
                              msg_fork) 0 NullCheckpoint, Some msg_fork).
Proof.
  exact (send_accepts_own_checkpoint (master_env true) (state0 100) "key"%string 201 7
           [Byte.x01] blk_1' ltac:(discriminate) eq_refl eq_refl eq_refl eq_refl eq_refl
           eq_refl eq_refl).
Defined.
